(** * motorshades_esp32: the stepper controller of [src/motor.h]

    A shallow embedding of the position / calibration controller of
    [motor.h] and the properties of its specification.

    - [IEEE] : the single and double precision arithmetic that
      [percentToSteps] and [motorCurrentPercentage] run, on the Standard
      Library's [SpecFloat];
    - [Engine] : the observable state of a [FastAccelStepper] object (an
      external library, known to the controller through its methods only);
    - the controller: the globals of [motor.h] as a record, its functions
      as computations in a state-and-fault monad that logs every call made
      to the stepper, to [Preferences], to [Serial] and to MQTT.

    Definitions come first; the second part proves that the code equals
    its closed forms and states the properties on them. *)

From Stdlib Require Import ZArith Bool List String Lia.
From Stdlib Require Import Floats.SpecFloat.
From stdpp Require Import base option gmap strings list.

Open Scope Z_scope.

(** ** 32-bit [int] *)

Definition INT_MAX : Z := 2147483647.
Definition INT_MIN : Z := -2147483648.

(** Two's complement wrap-around of [int] arithmetic on the ESP32. *)
Definition wrap32 (z : Z) : Z := (z + 2147483648) mod 4294967296 - 2147483648.

Definition in_int (z : Z) : Prop := INT_MIN <= z <= INT_MAX.

(** ** Floating point *)

Module IEEE.

(** [float] is binary32, [double] is binary64. *)
Definition fprec : Z := 24.
Definition femax : Z := 128.
Definition dprec : Z := 53.
Definition demax : Z := 1024.

(** [(float) z] for an [int] z. *)
Definition float_of_int (z : Z) : spec_float := binary_normalize fprec femax z 0 false.

(** An integer literal or a [float] promoted to [double]. *)
Definition double_of_int (z : Z) : spec_float := binary_normalize dprec demax z 0 false.

Definition double_of_float (x : spec_float) : spec_float :=
  match x with
  | S754_finite s m e => binary_round dprec demax s m e
  | _ => x
  end.

(** A [double] stored into a [float] variable. *)
Definition float_of_double (x : spec_float) : spec_float :=
  match x with
  | S754_finite s m e => binary_round fprec femax s m e
  | _ => x
  end.

Definition fmul : spec_float -> spec_float -> spec_float := SFmul fprec femax.
Definition fdiv : spec_float -> spec_float -> spec_float := SFdiv fprec femax.
Definition ddiv : spec_float -> spec_float -> spec_float := SFdiv dprec demax.

(** The magnitude [m * 2^e] rounded to the nearest integer, halves away
    from zero: what [round] does on a finite value. *)
Definition round_mag (m : positive) (e : Z) : Z :=
  match e with
  | Zneg k =>
      let d := Z.pow_pos 2 k in
      let q := Z.pos m / d in
      if 2 * (Z.pos m mod d) >=? d then q + 1 else q
  | _ => Z.pos m * 2 ^ e
  end.

Definition saturate (z : Z) : Z := Z.max INT_MIN (Z.min INT_MAX z).

(** [(int) round(x)].  C++ leaves the conversion of a value outside the
    range of [int] undefined; the ESP32 saturates, and that is what is
    written here.  A NaN never reaches this conversion in [motor.h]. *)
Definition int_of_round (x : spec_float) : Z :=
  match x with
  | S754_zero _ => 0
  | S754_finite s m e => saturate (cond_Zopp s (round_mag m e))
  | S754_infinity s => if s then INT_MIN else INT_MAX
  | S754_nan => 0
  end.

End IEEE.

(** [percentToSteps]: [float steps = (float) percent * (float) maxPos / 100.0;
    return (int) round(steps);].  The product is a [float]; the literal
    [100.0] is a [double], so the quotient is taken in [double] and
    rounded back to [float] by the assignment. *)
Definition percentToSteps_of (maxPos percent : Z) : Z :=
  let prod := IEEE.fmul (IEEE.float_of_int percent) (IEEE.float_of_int maxPos) in
  let steps :=
    IEEE.float_of_double (IEEE.ddiv (IEEE.double_of_float prod) (IEEE.double_of_int 100)) in
  IEEE.int_of_round steps.

(** [motorCurrentPercentage] on the two globals it reads:
    [(int) round((float) currPos / (float) maxPos * 100)], all in [float]. *)
Definition currentPercentage_of (currPos maxPos : Z) : Z :=
  if currPos =? 0 then 0
  else
    IEEE.int_of_round
      (IEEE.fmul (IEEE.fdiv (IEEE.float_of_int currPos) (IEEE.float_of_int maxPos))
                 (IEEE.float_of_int 100)).

(** ** The motion engine

    [FastAccelStepper] is an external library.  The controller sees a
    stepper through [getCurrentPosition], [targetPos], [isRunning] and the
    commands below; this record is that observable state.  Step generation
    itself (the counter moving while [running]) belongs to the engine and
    is the environment of the controller: see [stepTo]. *)

Module Engine.

Record Stepper : Type := mkStepper {
  position : Z;    (* getCurrentPosition() *)
  target : Z;      (* targetPos() *)
  running : bool;  (* isRunning() *)
  speedHz : Z      (* last setSpeedInHz() *)
}.

(** A freshly connected stepper. *)
Definition fresh : Stepper := mkStepper 0 0 false 0.

(** [setCurrentPosition] moves the counter, and the target by the same
    amount. *)
Definition setCurrentPosition (p : Z) (s : Stepper) : Stepper :=
  mkStepper p (wrap32 (target s + (p - position s))) (running s) (speedHz s).

Definition setSpeedInHz (hz : Z) (s : Stepper) : Stepper :=
  mkStepper (position s) (target s) (running s) hz.

(** [moveTo] is only ever called by [motorMoveTo] with [p] different from the
    counter: the stepper then runs. *)
Definition moveTo (p : Z) (s : Stepper) : Stepper :=
  mkStepper (position s) p (negb (p =? position s)) (speedHz s).

(** Hard stop: the stepper halts where it is. *)
Definition forceStop (s : Stepper) : Stepper :=
  mkStepper (position s) (target s) false (speedHz s).

(** [stopMove] asks for a ramp down; the stepper keeps running until the
    engine has decelerated it. *)
Definition stopMove (s : Stepper) : Stepper := s.

(** The environment: the engine has generated steps up to counter [r]. *)
Definition stepTo (r : Z) (s : Stepper) : Stepper :=
  mkStepper r (target s) (running s) (speedHz s).

(** The environment: the move ended at its target. *)
Definition arrive (s : Stepper) : Stepper :=
  mkStepper (target s) (target s) false (speedHz s).

End Engine.

Import Engine.

(** ** Everything the controller does to the outside *)

Inductive Event : Type :=
| EPinMode (pin : string) (mode : string)
| EDriver (call : string)
| EAttachInterrupt (pin : string)
| EEngineInit
| EConnectToPin (pin : string)
| EStepperCfg (call : string)
| ESetSpeedInHz (hz : Z)
| ESetCurrentPosition (p : Z)
| EMoveTo (p : Z)
| EForceStop
| EStopMove
| EMemoryBegin (ns : string)
| EPutInt (key : string) (v : Z)
| ESerialPrintln (line : string)
| ESendMqtt (percent : Z)
| EDelay (ticks : Z).

Definition is_forceStop (e : Event) : bool :=
  match e with EForceStop => true | _ => false end.

Definition is_putInt (key : string) (e : Event) : bool :=
  match e with EPutInt k _ => String.eqb k key | _ => false end.

(** ** The globals of [motor.h] *)

Record World : Type := mkWorld {
  maxPos : Z;
  currPos : Z;
  prevPos : Z;
  isSetMax : bool;
  isSetMin : bool;
  isMotorRunning : bool;
  stepper : option Stepper;     (* FastAccelStepper *stepper; None is NULL *)
  memory : gmap string Z;       (* Preferences memory *)
  trace : list Event            (* calls made so far, oldest first *)
}.

(** The state at power-up: zero-initialised globals, the given flash
    content. *)
Definition boot (flash : gmap string Z) : World :=
  mkWorld 0 0 0 false false false None flash [].

Definition set_maxPos (v : Z) (w : World) : World :=
  mkWorld v (currPos w) (prevPos w) (isSetMax w) (isSetMin w) (isMotorRunning w)
          (stepper w) (memory w) (trace w).
Definition set_currPos (v : Z) (w : World) : World :=
  mkWorld (maxPos w) v (prevPos w) (isSetMax w) (isSetMin w) (isMotorRunning w)
          (stepper w) (memory w) (trace w).
Definition set_prevPos (v : Z) (w : World) : World :=
  mkWorld (maxPos w) (currPos w) v (isSetMax w) (isSetMin w) (isMotorRunning w)
          (stepper w) (memory w) (trace w).
Definition set_isSetMax (v : bool) (w : World) : World :=
  mkWorld (maxPos w) (currPos w) (prevPos w) v (isSetMin w) (isMotorRunning w)
          (stepper w) (memory w) (trace w).
Definition set_isSetMin (v : bool) (w : World) : World :=
  mkWorld (maxPos w) (currPos w) (prevPos w) (isSetMax w) v (isMotorRunning w)
          (stepper w) (memory w) (trace w).
Definition set_isMotorRunning (v : bool) (w : World) : World :=
  mkWorld (maxPos w) (currPos w) (prevPos w) (isSetMax w) (isSetMin w) v
          (stepper w) (memory w) (trace w).
Definition set_stepper (v : option Stepper) (w : World) : World :=
  mkWorld (maxPos w) (currPos w) (prevPos w) (isSetMax w) (isSetMin w) (isMotorRunning w)
          v (memory w) (trace w).
Definition set_memory (v : gmap string Z) (w : World) : World :=
  mkWorld (maxPos w) (currPos w) (prevPos w) (isSetMax w) (isSetMin w) (isMotorRunning w)
          (stepper w) v (trace w).
Definition log (e : Event) (w : World) : World :=
  mkWorld (maxPos w) (currPos w) (prevPos w) (isSetMax w) (isSetMin w) (isMotorRunning w)
          (stepper w) (memory w) (trace w ++ [e]).

(** ** Computations: state, and the fault of calling a method on NULL *)

Inductive Fault : Type :=
| NullDeref (method : string).

Inductive Outcome (A : Type) : Type :=
| Ok (a : A) (w : World)
| Crash (f : Fault) (w : World).
Arguments Ok {A} a w.
Arguments Crash {A} f w.

Definition M (A : Type) : Type := World -> Outcome A.

Definition ret {A : Type} (a : A) : M A := fun w => Ok a w.

Definition bind {A B : Type} (m : M A) (k : A -> M B) : M B := fun w =>
  match m w with
  | Ok a w' => k a w'
  | Crash f w' => Crash f w'
  end.

Declare Scope ctrl_scope.
Delimit Scope ctrl_scope with ctrl.
Bind Scope ctrl_scope with M.
Notation "x <- m ;; k" := (bind m (fun x => k))
  (at level 100, m at level 99, k at level 200, right associativity, only parsing)
  : ctrl_scope.
Notation "m ;; k" := (bind m (fun _ => k))
  (at level 100, k at level 200, right associativity, only parsing) : ctrl_scope.
Open Scope ctrl_scope.

Definition get {A : Type} (field : World -> A) : M A := fun w => Ok (field w) w.
Definition modify (f : World -> World) : M unit := fun w => Ok tt (f w).
Definition emit (e : Event) : M unit := modify (log e).

(** [stepper->method(...)]: the pointer is read and followed. *)
Definition deref (method : string) : M Stepper := fun w =>
  match stepper w with
  | Some s => Ok s w
  | None => Crash (NullDeref method) w
  end.

Definition andM (a b : M bool) : M bool := x <- a;; if x then b else ret false.
Definition orM (a b : M bool) : M bool := x <- a;; if x then ret true else b.

(** The world a computation leaves, and what it logged on top of [w]. *)
Definition world_of {A : Type} (o : Outcome A) : World :=
  match o with Ok _ w => w | Crash _ w => w end.

Definition emitted {A : Type} (w : World) (o : Outcome A) : list Event :=
  drop (length (trace w)) (trace (world_of o)).

Definition crashed {A : Type} (o : Outcome A) : option Fault :=
  match o with Ok _ _ => None | Crash f _ => Some f end.

(** *** Stepper methods *)

Definition getCurrentPosition : M Z := s <- deref "getCurrentPosition";; ret (position s).
Definition targetPos : M Z := s <- deref "targetPos";; ret (target s).
Definition isRunning : M bool := s <- deref "isRunning";; ret (running s).

Definition stepperCall (method : string) (e : Event) (f : Stepper -> Stepper) : M unit :=
  s <- deref method;; emit e;; modify (set_stepper (Some (f s))).

Definition forceStop : M unit := stepperCall "forceStop" EForceStop Engine.forceStop.
Definition stopMove : M unit := stepperCall "stopMove" EStopMove Engine.stopMove.
Definition moveTo (p : Z) : M unit := stepperCall "moveTo" (EMoveTo p) (Engine.moveTo p).
Definition setCurrentPosition (p : Z) : M unit :=
  stepperCall "setCurrentPosition" (ESetCurrentPosition p) (Engine.setCurrentPosition p).
Definition setSpeedInHz (hz : Z) : M unit :=
  stepperCall "setSpeedInHz" (ESetSpeedInHz hz) (Engine.setSpeedInHz hz).
Definition stepperCfg (method : string) : M unit :=
  stepperCall method (EStepperCfg method) (fun s => s).

(** *** Preferences, Serial, MQTT *)

Definition getInt (key : string) (dflt : Z) : M Z :=
  m <- get memory;; ret (default dflt (m !! key)).

Definition putInt (key : string) (v : Z) : M unit :=
  emit (EPutInt key v);; modify (fun w => set_memory (<[key := v]> (memory w)) w).

Definition println (line : string) : M unit := emit (ESerialPrintln line).
Definition sendMqtt (percent : Z) : M unit := emit (ESendMqtt percent).

(** ** The controller: the functions of [motor.h] *)

(** [motor_settings.h] sets [max_speed], [acceleration], [microsteps] and
    the pins; the controller is parametric in them.  [stallguard_wired]
    says that both [DIAG_PIN] and [RXD2] are defined. *)
Record Settings : Type := mkSettings {
  max_speed : Z;
  acceleration : Z;
  microsteps : Z;
  stallguard_wired : bool
}.

(** The sentinel of both calibration phases. *)
Definition SENTINEL : Z := 2147483646.

Section Controller.

Variable cfg : Settings.

Definition stallguardInterrupt : M unit :=
  forceStop;;
  println "[I] Motor stalled".

Definition loadPositions : M unit :=
  emit (EMemoryBegin "local");;
  m <- getInt "maxPos" 50000;;
  modify (set_maxPos m);;
  c <- getInt "currPos" 0;;
  modify (set_currPos c);;
  c <- get currPos;;
  setCurrentPosition c.

(** [attach] is what [engine.stepperConnectToPin(STEP_PIN)] returns. *)
Definition motorSetup (attach : option Stepper) : M unit :=
  emit (EPinMode "EN_PIN" "OUTPUT");;
  emit (EPinMode "DIR_PIN" "OUTPUT");;
  emit (EPinMode "STEP_PIN" "OUTPUT");;
  emit (EPinMode "DIAG_PIN" "INPUT");;
  emit (EDriver "SERIAL_PORT.begin");;
  emit (EDriver "begin");;
  emit (EDriver "toff");;
  emit (EDriver "pdn_disable");;
  emit (EDriver "rms_current");;
  emit (EDriver "pwm_autoscale");;
  emit (EDriver "en_spreadCycle");;
  emit (EDriver "blank_time");;
  emit (EDriver "microsteps");;
  (if stallguard_wired cfg then
     emit (EDriver "semin");;
     emit (EDriver "TCOOLTHRS");;
     emit (EDriver "SGTHRS");;
     emit (EAttachInterrupt "DIAG_PIN")
   else ret tt);;
  emit EEngineInit;;
  emit (EConnectToPin "STEP_PIN");;
  modify (set_stepper attach);;
  p <- get stepper;;
  (if p is Some _ then
     stepperCfg "setEnablePin";;
     stepperCfg "setDirectionPin";;
     setSpeedInHz (max_speed cfg);;
     stepperCfg "setAcceleration";;
     stepperCfg "setAutoEnable";;
     stepperCfg "setDelayToEnable";;
     stepperCfg "setDelayToDisable"
   else
     println "[E] Please use a different GPIO pin. The current pin is not compatible..");;
  loadPositions.

Definition percentToSteps (percent : Z) : M Z :=
  m <- get maxPos;;
  ret (percentToSteps_of m percent).

Definition motorMoveTo (newPos : Z) : M unit :=
  reverse <-
    orM (andM (t <- targetPos;; ret (newPos <? t))
              (c <- getCurrentPosition;; t <- targetPos;; ret (c <? t)))
        (andM (t <- targetPos;; ret (t <? newPos))
              (c <- getCurrentPosition;; t <- targetPos;; ret (t <? c)));;
  (if reverse then forceStop else ret tt);;
  go <-
    andM (c <- getCurrentPosition;; ret (negb (newPos =? c)))
         (m <- get maxPos;; ret (newPos <=? m));;
  if go then
    moveTo newPos;;
    modify (set_isMotorRunning true)
  else ret tt.

Definition motorMove (percent : Z) : M unit :=
  p <- percentToSteps percent;;
  motorMoveTo p.

Definition motorMin : M unit := motorMoveTo 0.

Definition motorMax : M unit :=
  m <- get maxPos;;
  motorMoveTo m.

Definition motorSetMax : M unit :=
  modify (set_isSetMax true);;
  setSpeedInHz (Z.quot (max_speed cfg) 4);;
  modify (set_maxPos SENTINEL);;
  motorMoveTo SENTINEL.

Definition motorSetMin : M unit :=
  modify (set_isSetMin true);;
  setSpeedInHz (Z.quot (max_speed cfg) 4);;
  p <- getCurrentPosition;;
  modify (set_prevPos p);;
  setCurrentPosition SENTINEL;;
  motorMoveTo 0.

Definition motorCurrentPercentage : M Z :=
  c <- get currPos;;
  m <- get maxPos;;
  ret (currentPercentage_of c m).

Definition motorStop : M unit := stopMove.

Definition motorRun : M unit :=
  r <- get isMotorRunning;;
  if r then
    emit (EDelay 1);;
    run <- isRunning;;
    if negb run then
      modify (set_isMotorRunning false);;
      sx <- get isSetMax;;
      (if sx then
         modify (set_isSetMax false);;
         p <- getCurrentPosition;;
         modify (set_maxPos p);;
         m <- get maxPos;;
         putInt "maxPos" m;;
         setSpeedInHz (max_speed cfg)
       else
         sn <- get isSetMin;;
         if sn then
           modify (set_isSetMin false);;
           p <- getCurrentPosition;;
           let distanceTraveled := wrap32 (SENTINEL - p) in
           m <- get maxPos;;
           pp <- get prevPos;;
           modify (set_maxPos (wrap32 (wrap32 (m + distanceTraveled) - pp)));;
           setCurrentPosition 0;;
           setSpeedInHz (max_speed cfg)
         else ret tt);;
      p <- getCurrentPosition;;
      modify (set_currPos p);;
      c <- get currPos;;
      putInt "currPos" c;;
      pc <- motorCurrentPercentage;;
      sendMqtt pc
    else ret tt
  else ret tt.

(** The engine stepping on its own: the stepper, if there is one, is
    replaced by what the engine made of it. *)
Definition engine (f : Stepper -> Stepper) : M unit :=
  modify (fun w => set_stepper (f <$> stepper w) w).

End Controller.

(** The public operations of [motor.h], the stall interrupt and the poll,
    as one type, to quantify over "any operation". *)
Inductive Op : Type :=
| OpMoveTo (newPos : Z)
| OpMove (percent : Z)
| OpMin
| OpMax
| OpSetMax
| OpSetMin
| OpStop
| OpStall
| OpRun.

Definition perform (cfg : Settings) (op : Op) : M unit :=
  match op with
  | OpMoveTo n => motorMoveTo n
  | OpMove p => motorMove p
  | OpMin => motorMin
  | OpMax => motorMax
  | OpSetMax => motorSetMax cfg
  | OpSetMin => motorSetMin cfg
  | OpStop => motorStop
  | OpStall => stallguardInterrupt
  | OpRun => motorRun cfg
  end.

(** ** Closed forms

    What each function of the controller computes on an attached stepper,
    written out as a value: the lemmas of the second part prove these
    equal to the code above, and the theorems read on them. *)

(** The guard of [forceStop] in [motorMoveTo], on the stepper it reads. *)
Definition stops_first (newPos : Z) (s : Stepper) : bool :=
  (newPos <? target s) && (position s <? target s)
  || (target s <? newPos) && (target s <? position s).

(** The guard of [moveTo] in [motorMoveTo]. *)
Definition goes (newPos mx : Z) (s : Stepper) : bool :=
  negb (newPos =? position s) && (newPos <=? mx).

(** The spec's words for a direction reversal: the new target and the
    in-progress target lie on opposite sides of the current position. *)
Definition spec_reversal (newPos cur tgt : Z) : bool :=
  (newPos <? cur) && (cur <? tgt) || (tgt <? cur) && (cur <? newPos).

Definition after_stop (newPos : Z) (s : Stepper) (w : World) : World :=
  if stops_first newPos s
  then set_stepper (Some (Engine.forceStop s)) (log EForceStop w)
  else w.

Definition after_moveTo (newPos : Z) (s : Stepper) (w : World) : World :=
  let s1 := if stops_first newPos s then Engine.forceStop s else s in
  let w1 := after_stop newPos s w in
  if goes newPos (maxPos w) s
  then set_isMotorRunning true
         (set_stepper (Some (Engine.moveTo newPos s1)) (log (EMoveTo newPos) w1))
  else w1.

Definition moveTo_events (newPos mx : Z) (s : Stepper) : list Event :=
  (if stops_first newPos s then [EForceStop] else [])
  ++ (if goes newPos mx s then [EMoveTo newPos] else []).

(** What the poll calls when it finds the flag set and the stepper [s]
    stopped. *)
Definition finish_events (cfg : Settings) (s : Stepper) (w : World) : list Event :=
  let r := position s in
  if isSetMax w then
    [EDelay 1; EPutInt "maxPos" r; ESetSpeedInHz (max_speed cfg);
     EPutInt "currPos" r; ESendMqtt (currentPercentage_of r r)]
  else if isSetMin w then
    let mx := wrap32 (wrap32 (maxPos w + wrap32 (SENTINEL - r)) - prevPos w) in
    [EDelay 1; ESetCurrentPosition 0; ESetSpeedInHz (max_speed cfg);
     EPutInt "currPos" 0; ESendMqtt (currentPercentage_of 0 mx)]
  else
    [EDelay 1; EPutInt "currPos" r; ESendMqtt (currentPercentage_of r (maxPos w))].

(** The world it leaves. *)
Definition finished (cfg : Settings) (s : Stepper) (w : World) : World :=
  let r := position s in
  let tr := trace w ++ finish_events cfg s w in
  if isSetMax w then
    mkWorld r r (prevPos w) false (isSetMin w) false
      (Some (Engine.setSpeedInHz (max_speed cfg) s))
      (<["currPos" := r]> (<["maxPos" := r]> (memory w))) tr
  else if isSetMin w then
    let mx := wrap32 (wrap32 (maxPos w + wrap32 (SENTINEL - r)) - prevPos w) in
    mkWorld mx 0 (prevPos w) false false false
      (Some (Engine.setSpeedInHz (max_speed cfg) (Engine.setCurrentPosition 0 s)))
      (<["currPos" := 0]> (memory w)) tr
  else
    mkWorld (maxPos w) r (prevPos w) false false false (Some s)
      (<["currPos" := r]> (memory w)) tr.

Definition slow (cfg : Settings) : Z := Z.quot (max_speed cfg) 4.

(** The world in which [motorSetMax] calls [motorMoveTo], and the stepper
    it reads there. *)
Definition setMax_entry (cfg : Settings) (s : Stepper) (w : World) : World :=
  set_maxPos SENTINEL
    (set_stepper (Some (Engine.setSpeedInHz (slow cfg) s))
       (log (ESetSpeedInHz (slow cfg)) (set_isSetMax true w))).

(** The same for [motorSetMin]. *)
Definition setMin_stepper (cfg : Settings) (s : Stepper) : Stepper :=
  Engine.setCurrentPosition SENTINEL (Engine.setSpeedInHz (slow cfg) s).

Definition setMin_entry (cfg : Settings) (s : Stepper) (w : World) : World :=
  set_stepper (Some (setMin_stepper cfg s))
    (log (ESetCurrentPosition SENTINEL)
       (set_prevPos (position s)
          (set_stepper (Some (Engine.setSpeedInHz (slow cfg) s))
             (log (ESetSpeedInHz (slow cfg)) (set_isSetMin true w))))).

(** ** Concrete inputs *)

Definition cfg0 : Settings := mkSettings 30000 10000 8 true.

(** The controller after a successful [motorSetup] on empty flash:
    [maxPos = 50000], [currPos = 0], stepper at rest at 0. *)
Definition ready : World := world_of (motorSetup cfg0 (Some fresh) (boot ∅)).

(** A stepper halted at counter [r] on its way to [tgt]. *)
Definition halted (r tgt hz : Z) : Stepper := mkStepper r tgt false hz.

(** A SetMax calibration started from [ready] ([maxPos = 50000]), the
    stepper driven up to counter 48731, and the stall interrupt taken
    there. *)
Definition stalled_in_setMax : World :=
  world_of ((motorSetMax cfg0;; engine (stepTo 48731);; stallguardInterrupt) ready).

(** A move from 0 to 100 under way, [maxPos = 50000]. *)
Definition moving_to_100 : World :=
  set_stepper (Some (mkStepper 0 100 true 30000)) (set_isMotorRunning true ready).

(** A move from 0 to 50000 under way, the counter passing 25000. *)
Definition passing_half : World :=
  set_stepper (Some (mkStepper 25000 50000 true 30000)) (set_isMotorRunning true ready).

(** The poll that finds a move ended: flag set, stepper stopped. *)
Definition poll_completes (op : Op) (w : World) (s : Stepper) : bool :=
  match op with
  | OpRun => isMotorRunning w && negb (running s)
  | _ => false
  end.

(** A move to 25000, ended at its target. *)
Definition arrived_at_half : World :=
  world_of ((motorMoveTo 25000;; engine arrive) ready).

(** A controller whose stepper pointer is NULL, a move believed under way. *)
Definition detached : World := set_isMotorRunning true (boot ∅).

(** SetMax issued while a SetMin move is under way, and the stall
    interrupt taken at counter 2147483606. *)
Definition setMax_over_setMin : World :=
  world_of ((motorSetMin cfg0;; engine (stepTo (SENTINEL - 100));;
             motorSetMax cfg0;; engine (stepTo (SENTINEL - 40));;
             stallguardInterrupt) ready).

(** SetMin issued while a SetMax move is under way at counter 300, and the
    stall interrupt taken 300 steps below the sentinel. *)
Definition setMin_over_setMax : World :=
  world_of ((motorSetMax cfg0;; engine (stepTo 300);;
             motorSetMin cfg0;; engine (stepTo (SENTINEL - 300));;
             stallguardInterrupt) ready).

(** * Properties *)

(** The end-to-end figure of the specification: 50 percent of 50000. *)
Example percentToSteps_half : percentToSteps_of 50000 50 = 25000.
Proof. vm_compute. reflexivity. Qed.

(** The end-to-end move of the specification: from [maxPos = 50000] at
    0, 50 percent is a move to 25000; when it has ended there the poll
    persists 25000 and reports 50. *)
Example move_to_half_scenario :
  emitted ready ((motorMove 50;; engine arrive;; motorRun cfg0) ready) =
    [EMoveTo 25000; EDelay 1; EPutInt "currPos" 25000; ESendMqtt 50] /\
  memory (world_of ((motorMove 50;; engine arrive;; motorRun cfg0) ready)) !! "currPos"
    = Some 25000.
Proof. vm_compute. split; reflexivity. Qed.

(** The end-to-end calibration of the specification: SetMax, a stall at
    counter 48731.  [maxPos] is 48731, in memory and in storage, the speed
    is back to [max_speed], no calibration flag is up. *)
Example setMax_stall_scenario :
  maxPos (world_of (motorRun cfg0 stalled_in_setMax)) = 48731 /\
  memory (world_of (motorRun cfg0 stalled_in_setMax)) !! "maxPos" = Some 48731 /\
  speedHz <$> stepper (world_of (motorRun cfg0 stalled_in_setMax)) = Some 30000 /\
  isSetMax (world_of (motorRun cfg0 stalled_in_setMax)) = false /\
  isSetMin (world_of (motorRun cfg0 stalled_in_setMax)) = false.
Proof. vm_compute. repeat split; reflexivity. Qed.

(** ** Symbolic execution: the code is its closed form *)

Ltac exec :=
  cbv [perform motorRun motorMoveTo motorMove motorMin motorMax motorSetMax
       motorSetMin motorStop motorCurrentPercentage percentToSteps
       loadPositions stallguardInterrupt motorSetup engine
       bind ret get modify emit deref andM orM stepperCall
       forceStop stopMove moveTo setCurrentPosition setSpeedInHz stepperCfg
       getCurrentPosition targetPos isRunning getInt putInt println sendMqtt
       set_maxPos set_currPos set_prevPos set_isSetMax set_isSetMin
       set_isMotorRunning set_stepper set_memory log
       maxPos currPos prevPos isSetMax isSetMin isMotorRunning stepper memory trace
       Engine.forceStop Engine.stopMove Engine.moveTo Engine.setCurrentPosition
       Engine.setSpeedInHz position target running speedHz
       after_moveTo after_stop stops_first goes moveTo_events
       world_of crashed andb orb negb].

(** Runs the code up to the next comparison it branches on, and splits. *)
Ltac split_tests :=
  repeat (exec;
          match goal with
          | |- context [Z.ltb ?a ?b] => destruct (Z.ltb a b) eqn:?
          | |- context [Z.leb ?a ?b] => destruct (Z.leb a b) eqn:?
          | |- context [Z.eqb ?a ?b] => destruct (Z.eqb a b) eqn:?
          end;
          try discriminate);
  exec.

Ltac open_world w s H :=
  destruct w as [mx cp pp sx sn mr st mem tr];
  destruct s as [pos tgt rn hz];
  cbn [stepper] in H; subst st;
  cbn [maxPos currPos prevPos isSetMax isSetMin isMotorRunning stepper memory trace
       position target running speedHz] in *.

Lemma emitted_app {A : Type} (w : World) (o : Outcome A) (l : list Event) :
  trace (world_of o) = trace w ++ l -> emitted w o = l.
Proof.
  intros E. unfold emitted. rewrite E. apply drop_app_length.
Qed.

Lemma emitted_nil {A : Type} (w : World) (o : Outcome A) :
  trace (world_of o) = trace w -> emitted w o = [].
Proof.
  intros E. apply emitted_app. rewrite E. symmetry. apply app_nil_r.
Qed.

Lemma motorMoveTo_run (newPos : Z) (w : World) (s : Stepper) :
  stepper w = Some s ->
  motorMoveTo newPos w = Ok tt (after_moveTo newPos s w).
Proof.
  intros H. open_world w s H. split_tests; reflexivity.
Qed.

Lemma after_moveTo_trace (newPos : Z) (w : World) (s : Stepper) :
  trace (after_moveTo newPos s w) = trace w ++ moveTo_events newPos (maxPos w) s.
Proof.
  unfold after_moveTo, after_stop, moveTo_events.
  destruct (stops_first newPos s), (goes newPos (maxPos w) s); cbn;
    rewrite <- ?app_assoc, ?app_nil_r; reflexivity.
Qed.

Lemma motorMoveTo_emitted (newPos : Z) (w : World) (s : Stepper) :
  stepper w = Some s ->
  emitted w (motorMoveTo newPos w) = moveTo_events newPos (maxPos w) s.
Proof.
  intros H. apply emitted_app. rewrite (motorMoveTo_run _ _ _ H).
  apply after_moveTo_trace.
Qed.

Lemma motorRun_idle (cfg : Settings) (w : World) :
  isMotorRunning w = false -> motorRun cfg w = Ok tt w.
Proof.
  intros H. unfold motorRun, bind, get. rewrite H. reflexivity.
Qed.

Lemma motorRun_busy (cfg : Settings) (w : World) (s : Stepper) :
  stepper w = Some s -> isMotorRunning w = true -> running s = true ->
  motorRun cfg w = Ok tt (log (EDelay 1) w).
Proof.
  intros H Hr Hs. open_world w s H. subst. exec. reflexivity.
Qed.

Lemma motorRun_done (cfg : Settings) (w : World) (s : Stepper) :
  stepper w = Some s -> isMotorRunning w = true -> running s = false ->
  motorRun cfg w = Ok tt (finished cfg s w).
Proof.
  intros H Hr Hs. open_world w s H. subst.
  unfold finished, finish_events.
  destruct sx, sn; exec; rewrite <- !app_assoc; reflexivity.
Qed.

Lemma finished_trace (cfg : Settings) (s : Stepper) (w : World) :
  trace (finished cfg s w) = trace w ++ finish_events cfg s w.
Proof.
  unfold finished. destruct (isSetMax w), (isSetMin w); reflexivity.
Qed.

Lemma motorRun_done_emitted (cfg : Settings) (w : World) (s : Stepper) :
  stepper w = Some s -> isMotorRunning w = true -> running s = false ->
  emitted w (motorRun cfg w) = finish_events cfg s w.
Proof.
  intros H Hr Hs. apply emitted_app.
  rewrite (motorRun_done cfg w s H Hr Hs). apply finished_trace.
Qed.

Lemma finish_events_no_forceStop (cfg : Settings) (s : Stepper) (w : World) :
  ~ In EForceStop (finish_events cfg s w).
Proof.
  unfold finish_events.
  destruct (isSetMax w), (isSetMin w); cbn; intuition discriminate.
Qed.

(** ** [int] arithmetic *)

Lemma wrap32_id (z : Z) : in_int z -> wrap32 z = z.
Proof.
  unfold in_int, INT_MIN, INT_MAX, wrap32. intros H.
  rewrite Z.mod_small by lia. lia.
Qed.

Lemma wrap32_mod (z : Z) : wrap32 z mod 4294967296 = z mod 4294967296.
Proof.
  unfold wrap32.
  rewrite Zminus_mod, Zmod_mod, <- Zminus_mod.
  f_equal. lia.
Qed.

Lemma wrap32_eq (a b : Z) :
  a mod 4294967296 = b mod 4294967296 -> wrap32 a = wrap32 b.
Proof.
  intros H. unfold wrap32.
  rewrite (Zplus_mod a), (Zplus_mod b), H. reflexivity.
Qed.

(** The update of [maxPos] at the end of SetMin wraps once, as a whole. *)
Lemma setMin_arith (m r p : Z) :
  wrap32 (wrap32 (m + wrap32 (SENTINEL - r)) - p) = wrap32 (m + (SENTINEL - r) - p).
Proof.
  apply wrap32_eq.
  rewrite Zminus_mod, wrap32_mod.
  rewrite (Zplus_mod m (wrap32 _)), wrap32_mod, <- Zplus_mod.
  rewrite <- Zminus_mod. reflexivity.
Qed.

(** ** Stall *)

(** C1, as stated, fails: after a stall in the middle of SetMax the next
    poll issues no [forceStop] and commits [maxPos := 48731], away from the
    50000 it held before the calibration. *)
Lemma stall_in_setMax_commits_maxPos :
  maxPos ready = 50000 /\
  isSetMax stalled_in_setMax = true /\
  isMotorRunning stalled_in_setMax = true /\
  running <$> stepper stalled_in_setMax = Some false /\
  emitted stalled_in_setMax (motorRun cfg0 stalled_in_setMax) =
    [EDelay 1; EPutInt "maxPos" 48731; ESetSpeedInHz 30000;
     EPutInt "currPos" 48731; ESendMqtt 100] /\
  existsb is_forceStop (emitted stalled_in_setMax (motorRun cfg0 stalled_in_setMax)) = false /\
  maxPos (world_of (motorRun cfg0 stalled_in_setMax)) = 48731 /\
  maxPos (world_of (motorRun cfg0 stalled_in_setMax)) <> maxPos ready /\
  memory (world_of (motorRun cfg0 stalled_in_setMax)) !! "maxPos" = Some 48731.
Proof.
  vm_compute. repeat split; discriminate.
Qed.

(** C1, amended.  The hard stop is the interrupt handler's: with a move
    under way, [stallguardInterrupt] calls [forceStop] and leaves the
    stepper stopped where it is.  The next [motorRun] issues no [forceStop]
    of its own; it clears the running flag and finalizes whatever
    calibration phase is active with the counter reached: under SetMax
    [maxPos] becomes that counter and is persisted, under SetMin [maxPos]
    becomes [maxPos + (2147483646 - counter) - prevPos], and with no phase
    active [maxPos] is left alone.  The position is persisted in every
    case. *)
Theorem stall_then_poll_finalizes (cfg : Settings) (w : World) (s : Stepper) :
  stepper w = Some s -> isMotorRunning w = true ->
  exists w1 w2 : World,
    stallguardInterrupt w = Ok tt w1 /\
    emitted w (stallguardInterrupt w) = [EForceStop; ESerialPrintln "[I] Motor stalled"] /\
    stepper w1 = Some (Engine.forceStop s) /\
    motorRun cfg w1 = Ok tt w2 /\
    ~ In EForceStop (emitted w1 (motorRun cfg w1)) /\
    isMotorRunning w2 = false /\
    maxPos w2 = (if isSetMax w then position s
                 else if isSetMin w
                      then wrap32 (maxPos w + (SENTINEL - position s) - prevPos w)
                      else maxPos w) /\
    (isSetMax w = true -> memory w2 !! "maxPos" = Some (position s)) /\
    isSetMax w2 = false /\
    isSetMin w2 = isSetMax w && isSetMin w /\
    memory w2 !! "currPos" = Some (currPos w2).
Proof.
  intros H Hr.
  set (w1 := log (ESerialPrintln "[I] Motor stalled")
               (set_stepper (Some (Engine.forceStop s)) (log EForceStop w))).
  assert (Hstall : stallguardInterrupt w = Ok tt w1).
  { unfold w1. open_world w s H. exec. reflexivity. }
  assert (Hrun : motorRun cfg w1 = Ok tt (finished cfg (Engine.forceStop s) w1))
    by (apply motorRun_done; [reflexivity | exact Hr | reflexivity]).
  exists w1, (finished cfg (Engine.forceStop s) w1).
  split; [exact Hstall |].
  split.
  { apply emitted_app. rewrite Hstall. cbn. rewrite <- app_assoc. reflexivity. }
  split; [reflexivity |].
  split; [exact Hrun |].
  split.
  { rewrite (motorRun_done_emitted cfg w1 (Engine.forceStop s))
      by (reflexivity || exact Hr).
    apply finish_events_no_forceStop. }
  unfold finished. cbn.
  destruct (isSetMax w), (isSetMin w); cbn;
    rewrite ?setMin_arith, ?lookup_insert_eq;
    repeat split; try reflexivity; try discriminate.
  all: intros _; rewrite lookup_insert_ne by discriminate; apply lookup_insert_eq.
Qed.

Lemma stall_then_poll_finalizes_witness :
  exists w2 : World,
    motorRun cfg0 stalled_in_setMax = Ok tt w2 /\
    ~ In EForceStop (emitted stalled_in_setMax (motorRun cfg0 stalled_in_setMax)) /\
    maxPos w2 = 48731.
Proof.
  destruct (stall_then_poll_finalizes cfg0
              (world_of ((motorSetMax cfg0;; engine (stepTo 48731)) ready))
              (mkStepper 48731 SENTINEL true 7500))
    as (w1 & w2 & H1 & _ & _ & H2 & H3 & _ & H4 & _).
  - reflexivity.
  - reflexivity.
  - exists w2.
    assert (E : w1 = stalled_in_setMax).
    { assert (E' : Ok tt w1 = Ok tt stalled_in_setMax)
        by (rewrite <- H1; reflexivity).
      injection E'. trivial. }
    rewrite <- E. repeat split; assumption.
Defined.

(** ** Moves *)

Lemma motorMove_run (p : Z) (w : World) :
  motorMove p w = motorMoveTo (percentToSteps_of (maxPos w) p) w.
Proof. reflexivity. Qed.

Lemma moveTo_events_forceStop (n mx : Z) (s : Stepper) :
  In EForceStop (moveTo_events n mx s) <-> stops_first n s = true.
Proof.
  unfold moveTo_events.
  destruct (stops_first n s), (goes n mx s); cbn; intuition discriminate.
Qed.

Lemma moveTo_events_moveTo (n mx : Z) (s : Stepper) (q : Z) :
  In (EMoveTo q) (moveTo_events n mx s) <-> q = n /\ goes n mx s = true.
Proof.
  unfold moveTo_events.
  destruct (stops_first n s), (goes n mx s); cbn;
    intuition (try discriminate; try congruence).
Qed.

Lemma stops_first_iff (n : Z) (s : Stepper) :
  stops_first n s = true <->
  (n < target s /\ position s < target s) \/ (target s < n /\ target s < position s).
Proof.
  unfold stops_first.
  rewrite orb_true_iff, !andb_true_iff, !Z.ltb_lt. reflexivity.
Qed.

Lemma goes_iff (n mx : Z) (s : Stepper) :
  goes n mx s = true <-> n <> position s /\ n <= mx.
Proof.
  unfold goes.
  rewrite andb_true_iff, negb_true_iff, Z.eqb_neq, Z.leb_le. reflexivity.
Qed.

(** C2, as stated, fails: with [maxPos = 50000], 150 percent gives the
    target 75000, which is not clamped to 50000: nothing is issued at all;
    and -10 percent gives -5000, which is issued as it is, not as 0. *)
Lemma percent_out_of_range_not_clamped :
  percentToSteps_of (maxPos ready) 150 = 75000 /\
  motorMove 150 ready = Ok tt ready /\
  emitted ready (motorMove 150 ready) = [] /\
  percentToSteps_of (maxPos ready) (-10) = -5000 /\
  emitted ready (motorMove (-10) ready) = [EMoveTo (-5000)].
Proof.
  vm_compute. repeat split; reflexivity.
Qed.

(** C2, amended.  [motorMove] hands the target
    [(int) round((float) p * (float) maxPos / 100.0)] to [motorMoveTo] as
    it is, and never fails on an attached stepper.  A target above
    [maxPos] is dropped: no [moveTo], running flag and engine target left
    alone.  A target not above [maxPos] and different from the counter,
    negative ones included, is issued unchanged by a [moveTo] and the
    running flag is set. *)
Theorem motorMove_passes_target_unclamped (w : World) (s : Stepper) (p : Z) :
  stepper w = Some s ->
  exists w' : World,
    motorMove p w = Ok tt w' /\
    maxPos w' = maxPos w /\
    (maxPos w < percentToSteps_of (maxPos w) p ->
       (forall q, ~ In (EMoveTo q) (emitted w (motorMove p w))) /\
       isMotorRunning w' = isMotorRunning w /\
       target <$> stepper w' = Some (target s)) /\
    (percentToSteps_of (maxPos w) p <= maxPos w ->
     percentToSteps_of (maxPos w) p <> position s ->
       last (emitted w (motorMove p w)) = Some (EMoveTo (percentToSteps_of (maxPos w) p)) /\
       isMotorRunning w' = true /\
       stepper w' = Some (mkStepper (position s) (percentToSteps_of (maxPos w) p)
                                    true (speedHz s))).
Proof.
  intros H. rewrite motorMove_run.
  set (t := percentToSteps_of (maxPos w) p).
  exists (after_moveTo t s w).
  split; [apply motorMoveTo_run, H |].
  rewrite (motorMoveTo_emitted t w s H).
  split.
  { unfold after_moveTo, after_stop.
    destruct (stops_first t s), (goes t (maxPos w) s); reflexivity. }
  split.
  - intros Hgt.
    assert (Hg : goes t (maxPos w) s = false).
    { unfold goes. apply Z.leb_gt in Hgt. rewrite Hgt. apply andb_false_r. }
    split.
    { intros q Hq. apply moveTo_events_moveTo in Hq. rewrite Hg in Hq.
      destruct Hq as [_ Hq]. discriminate Hq. }
    unfold after_moveTo, after_stop. rewrite Hg.
    destruct (stops_first t s); cbn; rewrite ?H; split; reflexivity.
  - intros Hle Hne.
    assert (Hg : goes t (maxPos w) s = true) by (apply goes_iff; split; assumption).
    unfold after_moveTo, after_stop, moveTo_events. rewrite Hg.
    apply Z.eqb_neq in Hne.
    destruct (stops_first t s); unfold Engine.moveTo, Engine.forceStop; cbn;
      rewrite ?Hne; repeat split; reflexivity.
Qed.

Lemma motorMove_passes_target_unclamped_witness :
  exists w' : World,
    motorMove 150 ready = Ok tt w' /\
    (forall q, ~ In (EMoveTo q) (emitted ready (motorMove 150 ready))) /\
    isMotorRunning w' = false.
Proof.
  destruct (motorMove_passes_target_unclamped ready (halted 0 0 30000) 150)
    as (w' & H1 & _ & H2 & _).
  - reflexivity.
  - exists w'. split; [exact H1 |].
    destruct H2 as (H3 & H4 & _); [vm_compute; reflexivity |].
    split; [exact H3 | exact H4].
Defined.

(** C6, as stated, fails: on the way from 0 to 100, a new target of 50 lies
    on the same side of the counter as the target in progress (no
    reversal), and [motorMoveTo] force-stops all the same. *)
Lemma shorter_move_force_stops :
  stepper moving_to_100 = Some (mkStepper 0 100 true 30000) /\
  spec_reversal 50 0 100 = false /\
  emitted moving_to_100 (motorMoveTo 50 moving_to_100) = [EForceStop; EMoveTo 50].
Proof.
  vm_compute. repeat split; reflexivity.
Qed.

(** C6, amended.  [motorMoveTo] force-stops exactly when the new target
    and the counter are both strictly below, or both strictly above, the
    target in progress.  Every direction reversal (the new target and the
    target in progress on opposite sides of the counter) is such a case;
    so is a new target short of the target in progress in the direction of
    travel.  The [forceStop], if any, comes first; the [moveTo] follows
    exactly when the new target differs from the counter and does not
    exceed [maxPos]. *)
Theorem motorMoveTo_forceStop_iff (w : World) (s : Stepper) (newPos : Z) :
  stepper w = Some s ->
  (In EForceStop (emitted w (motorMoveTo newPos w)) <->
     (newPos < target s /\ position s < target s)
     \/ (target s < newPos /\ target s < position s)) /\
  (spec_reversal newPos (position s) (target s) = true ->
     In EForceStop (emitted w (motorMoveTo newPos w))) /\
  (In (EMoveTo newPos) (emitted w (motorMoveTo newPos w)) <->
     newPos <> position s /\ newPos <= maxPos w) /\
  emitted w (motorMoveTo newPos w) =
    (if stops_first newPos s then [EForceStop] else [])
    ++ (if goes newPos (maxPos w) s then [EMoveTo newPos] else []).
Proof.
  intros H. rewrite (motorMoveTo_emitted newPos w s H).
  split; [rewrite moveTo_events_forceStop; apply stops_first_iff |].
  split.
  { intros Hrev. apply moveTo_events_forceStop, stops_first_iff.
    unfold spec_reversal in Hrev.
    rewrite orb_true_iff, !andb_true_iff, !Z.ltb_lt in Hrev. lia. }
  split; [| reflexivity].
  rewrite moveTo_events_moveTo, goes_iff. intuition.
Qed.

Lemma motorMoveTo_forceStop_iff_witness :
  In EForceStop (emitted moving_to_100 (motorMoveTo 50 moving_to_100)) /\
  In (EMoveTo 50) (emitted moving_to_100 (motorMoveTo 50 moving_to_100)).
Proof.
  destruct (motorMoveTo_forceStop_iff moving_to_100 (mkStepper 0 100 true 30000) 50)
    as (H1 & _ & H2 & _).
  - reflexivity.
  - split.
    + apply H1. left. cbn. lia.
    + apply H2. replace (maxPos moving_to_100) with 50000 by reflexivity.
      cbn. lia.
Defined.

(** C8, as stated, fails: with [maxPos = 50000] and the counter passing
    25000 on the way to 50000, [motorMove(50)] computes the target 25000,
    equal to the counter, and issues a [forceStop]. *)
Lemma move_to_current_position_force_stops :
  stepper passing_half = Some (mkStepper 25000 50000 true 30000) /\
  percentToSteps_of (maxPos passing_half) 50 = 25000 /\
  emitted passing_half (motorMove 50 passing_half) = [EForceStop] /\
  running <$> stepper (world_of (motorMove 50 passing_half)) = Some false.
Proof.
  vm_compute. repeat split; reflexivity.
Qed.

(** C8, amended.  When the counter already equals the target computed for
    [p], [motorMove] issues no [moveTo] and leaves the running flag as it
    is.  It issues no [forceStop] either when the engine's target is the
    counter (the stepper rests where it was sent): the call then changes
    nothing.  When the engine's target differs from the counter (a move
    under way or cut short), the call issues a [forceStop]. *)
Theorem motorMove_at_target (w : World) (s : Stepper) (p : Z) :
  stepper w = Some s -> position s = percentToSteps_of (maxPos w) p ->
  exists w' : World,
    motorMove p w = Ok tt w' /\
    (forall q, ~ In (EMoveTo q) (emitted w (motorMove p w))) /\
    isMotorRunning w' = isMotorRunning w /\
    emitted w (motorMove p w) = (if target s =? position s then [] else [EForceStop]) /\
    (target s = position s -> w' = w).
Proof.
  intros H Hp. rewrite motorMove_run. rewrite <- Hp.
  exists (after_moveTo (position s) s w).
  split; [apply motorMoveTo_run, H |].
  rewrite (motorMoveTo_emitted _ w s H).
  assert (Hg : goes (position s) (maxPos w) s = false)
    by (unfold goes; rewrite Z.eqb_refl; reflexivity).
  assert (Hs : stops_first (position s) s = negb (target s =? position s)).
  { unfold stops_first. rewrite !andb_diag.
    destruct (Z.eqb_spec (target s) (position s)) as [E | N].
    - rewrite E, Z.ltb_irrefl. reflexivity.
    - destruct (Z.ltb_spec (position s) (target s)),
               (Z.ltb_spec (target s) (position s)); cbn; try reflexivity; lia. }
  unfold after_moveTo, after_stop, moveTo_events. rewrite Hg, Hs.
  split.
  { intros q Hq. destruct (target s =? position s); cbn in Hq; intuition discriminate. }
  split; [destruct (target s =? position s); reflexivity |].
  split; [destruct (target s =? position s); reflexivity |].
  intros E. rewrite E, Z.eqb_refl. reflexivity.
Qed.

Lemma motorMove_at_target_witness :
  exists w' : World,
    motorMove 50 passing_half = Ok tt w' /\
    isMotorRunning w' = true /\
    emitted passing_half (motorMove 50 passing_half) = [EForceStop].
Proof.
  destruct (motorMove_at_target passing_half (mkStepper 25000 50000 true 30000) 50)
    as (w' & H1 & _ & H2 & H3 & _).
  - reflexivity.
  - vm_compute. reflexivity.
  - exists w'. repeat split; assumption.
Defined.

(** ** Calibration starts, in closed form *)

Lemma motorSetMax_unfold (cfg : Settings) (w : World) (s : Stepper) :
  stepper w = Some s ->
  motorSetMax cfg w =
    Ok tt (after_moveTo SENTINEL (Engine.setSpeedInHz (slow cfg) s) (setMax_entry cfg s w)).
Proof.
  intros H. open_world w s H. unfold setMax_entry, slow.
  split_tests; reflexivity.
Qed.

Lemma motorSetMin_unfold (cfg : Settings) (w : World) (s : Stepper) :
  stepper w = Some s ->
  motorSetMin cfg w =
    Ok tt (after_moveTo 0 (setMin_stepper cfg s) (setMin_entry cfg s w)).
Proof.
  intros H. open_world w s H. unfold setMin_entry, setMin_stepper, slow.
  split_tests; reflexivity.
Qed.

(** What [after_moveTo] leaves of the globals and of the stepper. *)
Lemma after_moveTo_keeps (n : Z) (s : Stepper) (w : World) :
  stepper w = Some s ->
  maxPos (after_moveTo n s w) = maxPos w /\
  prevPos (after_moveTo n s w) = prevPos w /\
  isSetMax (after_moveTo n s w) = isSetMax w /\
  isSetMin (after_moveTo n s w) = isSetMin w /\
  position <$> stepper (after_moveTo n s w) = Some (position s) /\
  speedHz <$> stepper (after_moveTo n s w) = Some (speedHz s) /\
  (goes n (maxPos w) s = true ->
     isMotorRunning (after_moveTo n s w) = true /\
     target <$> stepper (after_moveTo n s w) = Some n).
Proof.
  intros H. unfold after_moveTo, after_stop.
  destruct (stops_first n s), (goes n (maxPos w) s); cbn; rewrite ?H; cbn;
    repeat split; try reflexivity; discriminate.
Qed.

Lemma moveTo_events_last (n mx : Z) (s : Stepper) (pre : list Event) :
  goes n mx s = true -> last (pre ++ moveTo_events n mx s) = Some (EMoveTo n).
Proof.
  intros Hg. unfold moveTo_events. rewrite Hg.
  destruct (stops_first n s); rewrite ?app_assoc; apply last_snoc.
Qed.

(** ** SetMax *)

(** C4, as stated, fails: a SetMax issued while a SetMin move is under
    way (no function tests the other flag) ends, at the stall, with
    [maxPos] committed and the SetMax flag down, but the SetMin flag still
    up: the calibration state is not back to idle. *)
Lemma setMax_during_setMin_not_idle :
  isSetMax setMax_over_setMin = true /\
  isMotorRunning setMax_over_setMin = true /\
  stepper setMax_over_setMin = Some (mkStepper 2147483606 2147483646 false 7500) /\
  maxPos (world_of (motorRun cfg0 setMax_over_setMin)) = 2147483606 /\
  memory (world_of (motorRun cfg0 setMax_over_setMin)) !! "maxPos" = Some 2147483606 /\
  isSetMax (world_of (motorRun cfg0 setMax_over_setMin)) = false /\
  isSetMin (world_of (motorRun cfg0 setMax_over_setMin)) = true.
Proof.
  vm_compute. repeat split; reflexivity.
Qed.

(** C4, amended.  [motorSetMax], on an attached stepper, raises the SetMax
    flag, reduces the speed to [max_speed / 4], sets [maxPos] to the
    sentinel and leaves the SetMin flag as it is; it issues
    [moveTo(2147483646)], and raises the running flag, exactly when the
    counter is not the sentinel already.  When the poll then finds a move
    ended (running flag up, stepper stopped at counter [r]) with the SetMax
    flag up, [motorRun] sets [maxPos] to [r], writes it to persistent
    storage under "maxPos" as its first outside call after the delay, sets
    the speed back to [max_speed], lowers the SetMax flag and leaves the
    SetMin flag as it is: the calibration state is idle afterwards exactly
    when no SetMin flag was up. *)
Theorem setMax_completion_commits_maxPos
  (cfg : Settings) (w0 w : World) (s0 s : Stepper) (r : Z) :
  stepper w0 = Some s0 ->
  stepper w = Some s -> isMotorRunning w = true -> isSetMax w = true ->
  running s = false -> position s = r ->
  (exists w1 : World,
     motorSetMax cfg w0 = Ok tt w1 /\
     isSetMax w1 = true /\ isSetMin w1 = isSetMin w0 /\
     maxPos w1 = SENTINEL /\
     speedHz <$> stepper w1 = Some (Z.quot (max_speed cfg) 4) /\
     (In (EMoveTo SENTINEL) (emitted w0 (motorSetMax cfg w0)) <-> position s0 <> SENTINEL) /\
     (position s0 <> SENTINEL ->
        last (emitted w0 (motorSetMax cfg w0)) = Some (EMoveTo SENTINEL) /\
        isMotorRunning w1 = true)) /\
  (exists w2 : World,
     motorRun cfg w = Ok tt w2 /\
     maxPos w2 = r /\
     memory w2 !! "maxPos" = Some r /\
     emitted w (motorRun cfg w) =
       [EDelay 1; EPutInt "maxPos" r; ESetSpeedInHz (max_speed cfg);
        EPutInt "currPos" r; ESendMqtt (currentPercentage_of r r)] /\
     speedHz <$> stepper w2 = Some (max_speed cfg) /\
     isSetMax w2 = false /\
     isSetMin w2 = isSetMin w /\
     (isSetMin w = false -> isSetMax w2 = false /\ isSetMin w2 = false) /\
     isMotorRunning w2 = false).
Proof.
  intros H0 H Hr Hx Hs Hp. split.
  - set (s1 := Engine.setSpeedInHz (slow cfg) s0).
    set (we := setMax_entry cfg s0 w0).
    exists (after_moveTo SENTINEL s1 we).
    pose proof (motorSetMax_unfold cfg w0 s0 H0) as Hrun. fold s1 we in Hrun.
    assert (Hev : emitted w0 (motorSetMax cfg w0) =
                  [ESetSpeedInHz (slow cfg)] ++ moveTo_events SENTINEL SENTINEL s1).
    { apply emitted_app. rewrite Hrun. cbn [world_of]. rewrite after_moveTo_trace.
      unfold we, setMax_entry. cbn.
      rewrite <- app_assoc. reflexivity. }
    assert (Hg : goes SENTINEL SENTINEL s1 = true <-> position s0 <> SENTINEL)
      by (rewrite goes_iff; unfold s1; cbn; intuition lia).
    destruct (after_moveTo_keeps SENTINEL s1 we eq_refl)
      as (K1 & _ & K3 & K4 & _ & K6 & K7).
    split; [exact Hrun |].
    split; [rewrite K3; reflexivity |].
    split; [rewrite K4; reflexivity |].
    split; [rewrite K1; reflexivity |].
    split; [rewrite K6; reflexivity |].
    split.
    { rewrite Hev. cbn [app In]. rewrite moveTo_events_moveTo, <- Hg.
      intuition discriminate. }
    intros Hne. apply Hg in Hne. split.
    + rewrite Hev. apply moveTo_events_last, Hne.
    + apply K7. exact Hne.
  - exists (finished cfg s w).
    split; [apply motorRun_done; assumption |].
    rewrite (motorRun_done_emitted cfg w s H Hr Hs).
    unfold finished, finish_events. rewrite Hx, Hp. cbn.
    split; [reflexivity |].
    split; [rewrite lookup_insert_ne by discriminate; apply lookup_insert_eq |].
    repeat split; try reflexivity. assumption.
Qed.

Lemma setMax_completion_commits_maxPos_witness :
  exists w2 : World,
    motorRun cfg0 stalled_in_setMax = Ok tt w2 /\
    maxPos w2 = 48731 /\
    memory w2 !! "maxPos" = Some 48731 /\
    speedHz <$> stepper w2 = Some 30000 /\
    isSetMax w2 = false /\ isSetMin w2 = false.
Proof.
  destruct (setMax_completion_commits_maxPos cfg0 ready stalled_in_setMax
              (halted 0 0 30000) (halted 48731 SENTINEL 7500) 48731)
    as (_ & w2 & H1 & H2 & H3 & _ & H4 & _ & _ & H5 & _).
  - vm_compute. reflexivity.
  - vm_compute. reflexivity.
  - vm_compute. reflexivity.
  - vm_compute. reflexivity.
  - reflexivity.
  - reflexivity.
  - exists w2. destruct H5 as [H5 H6]; [vm_compute; reflexivity |].
    repeat split; assumption.
Defined.

(** ** SetMin *)

(** C5, as stated, fails: a SetMin issued while a SetMax move is under
    way (no function tests the other flag) ends, at the stall, in the
    SetMax branch of the poll: [maxPos] is the raw counter, not
    [maxPos + (2147483646 - counter) - prevPos = 2147483646]; the counter
    is not set to 0 and the SetMin flag is still up. *)
Lemma setMin_during_setMax_not_rebased :
  isSetMin setMin_over_setMax = true /\
  isMotorRunning setMin_over_setMax = true /\
  maxPos setMin_over_setMax = 2147483646 /\
  prevPos setMin_over_setMax = 300 /\
  stepper setMin_over_setMax = Some (mkStepper 2147483346 0 false 7500) /\
  maxPos (world_of (motorRun cfg0 setMin_over_setMax)) = 2147483346 /\
  maxPos (world_of (motorRun cfg0 setMin_over_setMax))
    <> 2147483646 + (2147483646 - 2147483346) - 300 /\
  position <$> stepper (world_of (motorRun cfg0 setMin_over_setMax)) = Some 2147483346 /\
  isSetMin (world_of (motorRun cfg0 setMin_over_setMax)) = true.
Proof.
  vm_compute. repeat split; (reflexivity || discriminate).
Qed.

(** C5, amended.  [motorSetMin], on an attached stepper, raises the SetMin
    flag, reduces the speed to [max_speed / 4], saves the counter in
    [prevPos], sets the counter to 2147483646 and leaves [maxPos] and the
    SetMax flag as they are; it issues [moveTo(0)], and raises the running
    flag, exactly when [maxPos] is not negative.  When the poll then finds
    a move ended (running flag up, stepper stopped at counter [r]) with
    the SetMin flag up and the SetMax flag down, [motorRun] sets [maxPos]
    to [maxPos + (2147483646 - r) - prevPos] (in [int] arithmetic; exactly
    that number when it fits an [int]), the counter to 0, the speed back
    to [max_speed], and leaves both calibration flags down. *)
Theorem setMin_completion_rebases_maxPos
  (cfg : Settings) (w0 w : World) (s0 s : Stepper) (r : Z) :
  stepper w0 = Some s0 ->
  stepper w = Some s -> isMotorRunning w = true ->
  isSetMin w = true -> isSetMax w = false ->
  running s = false -> position s = r ->
  (exists w1 : World,
     motorSetMin cfg w0 = Ok tt w1 /\
     prevPos w1 = position s0 /\
     position <$> stepper w1 = Some SENTINEL /\
     speedHz <$> stepper w1 = Some (Z.quot (max_speed cfg) 4) /\
     In (ESetCurrentPosition SENTINEL) (emitted w0 (motorSetMin cfg w0)) /\
     isSetMin w1 = true /\ isSetMax w1 = isSetMax w0 /\ maxPos w1 = maxPos w0 /\
     (In (EMoveTo 0) (emitted w0 (motorSetMin cfg w0)) <-> 0 <= maxPos w0) /\
     (0 <= maxPos w0 ->
        last (emitted w0 (motorSetMin cfg w0)) = Some (EMoveTo 0) /\
        target <$> stepper w1 = Some 0 /\
        isMotorRunning w1 = true)) /\
  (exists w2 : World,
     motorRun cfg w = Ok tt w2 /\
     maxPos w2 = wrap32 (maxPos w + (SENTINEL - r) - prevPos w) /\
     (in_int (maxPos w + (SENTINEL - r) - prevPos w) ->
      maxPos w2 = maxPos w + (SENTINEL - r) - prevPos w) /\
     position <$> stepper w2 = Some 0 /\
     speedHz <$> stepper w2 = Some (max_speed cfg) /\
     currPos w2 = 0 /\
     isSetMin w2 = false /\ isSetMax w2 = false /\ isMotorRunning w2 = false).
Proof.
  intros H0 H Hr Hn Hx Hs Hp. split.
  - set (s2 := setMin_stepper cfg s0).
    set (we := setMin_entry cfg s0 w0).
    exists (after_moveTo 0 s2 we).
    pose proof (motorSetMin_unfold cfg w0 s0 H0) as Hrun. fold s2 we in Hrun.
    assert (Hev : emitted w0 (motorSetMin cfg w0) =
                  [ESetSpeedInHz (slow cfg); ESetCurrentPosition SENTINEL]
                    ++ moveTo_events 0 (maxPos w0) s2).
    { apply emitted_app. rewrite Hrun. cbn [world_of]. rewrite after_moveTo_trace.
      unfold we, setMin_entry. cbn.
      rewrite <- !app_assoc. reflexivity. }
    assert (Hg : goes 0 (maxPos w0) s2 = true <-> 0 <= maxPos w0).
    { rewrite goes_iff. unfold s2, setMin_stepper, SENTINEL. cbn. intuition lia. }
    destruct (after_moveTo_keeps 0 s2 we eq_refl)
      as (K1 & K2 & K3 & K4 & K5 & K6 & K7).
    split; [exact Hrun |].
    split; [rewrite K2; reflexivity |].
    split; [rewrite K5; reflexivity |].
    split; [rewrite K6; reflexivity |].
    split; [rewrite Hev; right; left; reflexivity |].
    split; [rewrite K4; reflexivity |].
    split; [rewrite K3; reflexivity |].
    split; [rewrite K1; reflexivity |].
    split.
    { rewrite Hev. cbn [app In]. rewrite moveTo_events_moveTo, <- Hg.
      intuition discriminate. }
    intros Hle. apply Hg in Hle.
    destruct (K7 Hle) as [K8 K9].
    split; [rewrite Hev; apply moveTo_events_last, Hle |].
    split; [exact K9 | exact K8].
  - exists (finished cfg s w).
    split; [apply motorRun_done; assumption |].
    assert (Hmax : maxPos (finished cfg s w) =
                   wrap32 (maxPos w + (SENTINEL - r) - prevPos w)).
    { unfold finished. rewrite Hx, Hn, Hp. cbn. apply setMin_arith. }
    split; [exact Hmax |].
    split; [intros Hin; rewrite Hmax; apply wrap32_id, Hin |].
    unfold finished. rewrite Hx, Hn. cbn. repeat split; reflexivity.
Qed.

Lemma setMin_completion_rebases_maxPos_witness :
  exists w2 : World,
    motorRun cfg0 (set_stepper (Some (halted (SENTINEL - 300) 0 7500))
                               (world_of (motorSetMin cfg0 ready))) = Ok tt w2 /\
    maxPos w2 = 50300 /\
    position <$> stepper w2 = Some 0 /\
    speedHz <$> stepper w2 = Some 30000 /\
    isSetMin w2 = false /\ isSetMax w2 = false.
Proof.
  destruct (setMin_completion_rebases_maxPos cfg0 ready
              (set_stepper (Some (halted (SENTINEL - 300) 0 7500))
                           (world_of (motorSetMin cfg0 ready)))
              (halted 0 0 30000) (halted (SENTINEL - 300) 0 7500) (SENTINEL - 300))
    as (_ & w2 & H1 & _ & H2 & H3 & H4 & _ & H5 & H6 & _).
  - vm_compute. reflexivity.
  - vm_compute. reflexivity.
  - vm_compute. reflexivity.
  - vm_compute. reflexivity.
  - vm_compute. reflexivity.
  - reflexivity.
  - reflexivity.
  - exists w2. split; [exact H1 |].
    split.
    { rewrite H2; [vm_compute; reflexivity |].
      vm_compute. split; intro E; discriminate E. }
    repeat split; assumption.
Defined.

(** ** Who assigns [maxPos], who writes the position *)

Ltac proj :=
  cbn [maxPos currPos prevPos isSetMax isSetMin isMotorRunning stepper memory trace
       position target running speedHz world_of] in *.

Ltac events :=
  first [ rewrite emitted_nil by (exec; reflexivity)
        | erewrite emitted_app by (exec; rewrite <- ?app_assoc; reflexivity) ].

(** C3, as stated, fails: [motorSetMax] overwrites [maxPos] (50000 here)
    with 2147483646 when the calibration starts, the move just issued, and
    writes nothing to persistent storage. *)
Lemma setMax_start_overwrites_maxPos :
  maxPos ready = 50000 /\
  maxPos (world_of (motorSetMax cfg0 ready)) = 2147483646 /\
  isSetMax (world_of (motorSetMax cfg0 ready)) = true /\
  running <$> stepper (world_of (motorSetMax cfg0 ready)) = Some true /\
  emitted ready (motorSetMax cfg0 ready) = [ESetSpeedInHz 7500; EMoveTo 2147483646] /\
  memory (world_of (motorSetMax cfg0 ready)) !! "maxPos" = None.
Proof.
  vm_compute. repeat split; reflexivity.
Qed.

(** The end of a SetMin move changes [maxPos] (to 50300 here) and writes
    only "currPos": the new [maxPos] does not reach persistent storage. *)
Example setMin_end_does_not_persist_maxPos :
  maxPos (world_of ((motorSetMin cfg0;; engine (stepTo (SENTINEL - 300));;
                     stallguardInterrupt;; motorRun cfg0) ready)) = 50300 /\
  memory (world_of ((motorSetMin cfg0;; engine (stepTo (SENTINEL - 300));;
                     stallguardInterrupt;; motorRun cfg0) ready)) !! "maxPos" = None.
Proof.
  vm_compute. split; reflexivity.
Qed.

(** C3, amended.  After startup, with an attached stepper, every operation
    runs to its end, and [maxPos] is assigned in two places only:
    [motorSetMax], when a SetMax calibration starts (to the sentinel
    2147483646, persistent storage untouched), and [motorRun], when it
    finds a calibration move ended.  No move command, no [motorSetMin], no
    stop, no stall interrupt and no poll of a running stepper or outside a
    calibration changes it.  The value committed at the end of a SetMax
    move is written to persistent storage at once: the write is the first
    call after the assignment. *)
Theorem maxPos_assigned_only_by_calibration
  (cfg : Settings) (op : Op) (w : World) (s : Stepper) :
  stepper w = Some s ->
  exists w' : World,
    perform cfg op w = Ok tt w' /\
    (maxPos w' <> maxPos w ->
       op = OpSetMax
       \/ (op = OpRun /\ isMotorRunning w = true /\ running s = false
           /\ (isSetMax w = true \/ isSetMin w = true))) /\
    (op = OpSetMax -> maxPos w' = SENTINEL /\ memory w' = memory w) /\
    (op = OpRun -> isMotorRunning w = true -> running s = false -> isSetMax w = true ->
       maxPos w' = position s /\
       (exists rest, emitted w (perform cfg op w) =
                     EDelay 1 :: EPutInt "maxPos" (maxPos w') :: rest) /\
       memory w' !! "maxPos" = Some (maxPos w')).
Proof.
  intros H. open_world w s H.
  destruct op; [| | | | | | | | destruct mr, rn, sx, sn]; split_tests;
    (eexists; split; [reflexivity |]); proj.
  all: split;
    [intros N; first [ left; reflexivity
                     | right; repeat split; auto; fail
                     | exfalso; apply N; reflexivity ] |].
  all: split; [intros E; first [discriminate E | split; reflexivity] |].
  all: intros E E1 E2 E3; try discriminate.
  all: (split; [reflexivity |]).
  all: split;
    [eexists; apply emitted_app; exec; rewrite <- !app_assoc; reflexivity |].
  all: rewrite lookup_insert_ne by discriminate; apply lookup_insert_eq.
Qed.

Lemma maxPos_assigned_only_by_calibration_witness :
  exists w' : World,
    motorRun cfg0 stalled_in_setMax = Ok tt w' /\
    maxPos w' = 48731 /\
    memory w' !! "maxPos" = Some (maxPos w').
Proof.
  destruct (maxPos_assigned_only_by_calibration cfg0 OpRun stalled_in_setMax
              (halted 48731 SENTINEL 7500))
    as (w' & H1 & _ & _ & H2).
  - reflexivity.
  - exists w'. split; [exact H1 |].
    destruct H2 as (H3 & _ & H4); try reflexivity.
    split; [exact H3 | exact H4].
Defined.

(** C7.  [loadPositions], on an attached stepper, sets [maxPos] and
    [currPos] from persistent storage, 50000 and 0 standing in for absent
    keys, and sets the engine's counter to the loaded [currPos]; it writes
    nothing.  Afterwards "currPos" is written by one thing only, the poll
    that finds the running flag set and the stepper stopped: that poll
    writes it once, with the engine's counter, and drops the flag, so that
    the next poll does nothing.  No other operation writes it: no command,
    no stall interrupt, no poll of a stepper still running, and no step of
    the engine. *)
Theorem position_persisted_on_completion_only
  (cfg : Settings) (op : Op) (w : World) (s : Stepper) :
  stepper w = Some s ->
  (exists w0 : World,
     loadPositions w = Ok tt w0 /\
     maxPos w0 = default 50000 (memory w !! "maxPos") /\
     currPos w0 = default 0 (memory w !! "currPos") /\
     position <$> stepper w0 = Some (currPos w0) /\
     memory w0 = memory w) /\
  (forall f : Stepper -> Stepper,
     memory (world_of (engine f w)) = memory w /\ emitted w (engine f w) = []) /\
  exists w' : World,
    perform cfg op w = Ok tt w' /\
    List.filter (is_putInt "currPos") (emitted w (perform cfg op w)) =
      (if poll_completes op w s then [EPutInt "currPos" (currPos w')] else []) /\
    (poll_completes op w s = false -> memory w' !! "currPos" = memory w !! "currPos") /\
    (poll_completes op w s = true ->
       position <$> stepper w' = Some (currPos w') /\
       memory w' !! "currPos" = Some (currPos w') /\
       isMotorRunning w' = false /\
       motorRun cfg w' = Ok tt w').
Proof.
  intros H. open_world w s H. split.
  { exec. eexists. split; [reflexivity |]. proj. repeat split; reflexivity. }
  split.
  { intros f. split; [reflexivity | apply emitted_nil; reflexivity]. }
  unfold poll_completes.
  destruct op; [| | | | | | | | destruct mr, rn, sx, sn]; split_tests;
    (eexists; split; [reflexivity |]); proj; cbn [andb negb].
  all: split; [events; reflexivity |].
  all: split;
    [intros E; first [ discriminate E
                     | reflexivity
                     | rewrite lookup_insert_ne by discriminate; reflexivity ] |].
  all: intros E; try discriminate E.
  all: split; [reflexivity |].
  all: split; [apply lookup_insert_eq |].
  all: split; reflexivity.
Qed.

Lemma position_persisted_on_completion_only_witness :
  exists w' : World,
    motorRun cfg0 arrived_at_half = Ok tt w' /\
    List.filter (is_putInt "currPos") (emitted arrived_at_half (motorRun cfg0 arrived_at_half)) =
      [EPutInt "currPos" (currPos w')] /\
    memory w' !! "currPos" = Some (currPos w') /\
    isMotorRunning w' = false.
Proof.
  destruct (position_persisted_on_completion_only cfg0 OpRun arrived_at_half
              (halted 25000 25000 30000))
    as (_ & _ & w' & H1 & H2 & _ & H3).
  - vm_compute. reflexivity.
  - assert (E : poll_completes OpRun arrived_at_half (halted 25000 25000 30000) = true)
      by (vm_compute; reflexivity).
    rewrite E in H2. destruct (H3 E) as (_ & H5 & H6 & _).
    exists w'. split; [exact H1 |].
    split; [exact H2 |]. split; [exact H5 | exact H6].
Defined.

(** ** Rounding keeps the sign *)

Lemma digits2_pos_bounds (m : positive) :
  2 ^ (Z.pos (digits2_pos m) - 1) <= Z.pos m < 2 ^ Z.pos (digits2_pos m).
Proof.
  induction m as [m IH | m IH |]; cbn [digits2_pos].
  - rewrite Pos2Z.inj_succ.
    replace (Z.succ (Z.pos (digits2_pos m)) - 1) with (Z.succ (Z.pos (digits2_pos m) - 1)) by lia.
    rewrite !Z.pow_succ_r by lia. lia.
  - rewrite Pos2Z.inj_succ.
    replace (Z.succ (Z.pos (digits2_pos m)) - 1) with (Z.succ (Z.pos (digits2_pos m) - 1)) by lia.
    rewrite !Z.pow_succ_r by lia. lia.
  - cbn. lia.
Qed.

Lemma shr_1_m (mrs : shr_record) :
  0 <= shr_m mrs -> shr_m (shr_1 mrs) = shr_m mrs / 2.
Proof.
  destruct mrs as [m r s]. cbn [shr_m]. intros H.
  destruct m as [| p | p]; [reflexivity | | lia].
  destruct p as [p | p |]; cbn [shr_1 shr_m].
  - rewrite Pos2Z.inj_xI. apply Z.div_unique with (r := 1); lia.
  - rewrite Pos2Z.inj_xO. apply Z.div_unique with (r := 0); lia.
  - reflexivity.
Qed.

Lemma pow2_xO (p : positive) : 2 ^ Z.pos p~0 = 2 ^ Z.pos p * 2 ^ Z.pos p.
Proof.
  rewrite <- Z.pow_add_r by lia. f_equal. lia.
Qed.

Lemma pow2_xI (p : positive) : 2 ^ Z.pos p~1 = 2 * (2 ^ Z.pos p * 2 ^ Z.pos p).
Proof.
  rewrite <- Z.pow_add_r, <- Z.pow_succ_r by lia. f_equal. lia.
Qed.

Lemma iter_pos_shr_1_m (p : positive) (mrs : shr_record) :
  0 <= shr_m mrs ->
  shr_m (SpecFloat.iter_pos shr_1 p mrs) = shr_m mrs / 2 ^ Z.pos p.
Proof.
  revert mrs. induction p as [p IH | p IH |]; intros mrs H; cbn [SpecFloat.iter_pos];
    try assert (P : 0 < 2 ^ Z.pos p) by (apply Z.pow_pos_nonneg; lia).
  - assert (H1 : 0 <= shr_m (shr_1 mrs))
      by (rewrite shr_1_m by exact H; apply Z.div_pos; lia).
    assert (H2 : 0 <= shr_m (SpecFloat.iter_pos shr_1 p (shr_1 mrs)))
      by (rewrite IH by exact H1; apply Z.div_pos; [exact H1 | exact P]).
    rewrite IH by exact H2. rewrite IH by exact H1. rewrite shr_1_m by exact H.
    rewrite !Z.div_div by lia. rewrite pow2_xI. reflexivity.
  - assert (H2 : 0 <= shr_m (SpecFloat.iter_pos shr_1 p mrs))
      by (rewrite IH by exact H; apply Z.div_pos; [exact H | exact P]).
    rewrite IH by exact H2. rewrite IH by exact H.
    rewrite Z.div_div by lia. rewrite pow2_xO. reflexivity.
  - rewrite shr_1_m by exact H. reflexivity.
Qed.

Lemma shr_record_of_loc_m (m : Z) (l : location) : shr_m (shr_record_of_loc m l) = m.
Proof. destruct l as [| []]; reflexivity. Qed.

Lemma shr_fexp_pos (prec emax m e : Z) (l : location) :
  0 < prec -> emin prec emax <= e -> 0 < m ->
  0 < shr_m (fst (shr_fexp prec emax m e l))
  /\ emin prec emax <= snd (shr_fexp prec emax m e l).
Proof.
  intros Hp He Hm. unfold shr_fexp, shr.
  destruct m as [| m | m]; try lia. cbn [Zdigits2].
  pose proof (digits2_pos_bounds m) as Hd.
  set (d := Z.pos (digits2_pos m)) in *.
  destruct (fexp prec emax (d + e) - e) as [| n | n] eqn:En;
    cbn [fst snd]; rewrite ?shr_record_of_loc_m; try (split; lia).
  rewrite iter_pos_shr_1_m by (rewrite shr_record_of_loc_m; lia).
  rewrite shr_record_of_loc_m.
  assert (Hn : Z.pos n <= d - 1) by (unfold fexp in En; lia).
  split; [| lia].
  apply Z.div_str_pos. split; [apply Z.pow_pos_nonneg; lia |].
  apply Z.le_trans with (2 ^ (d - 1)); [| lia].
  apply Z.pow_le_mono_r; lia.
Qed.

Lemma round_nearest_even_pos (m : Z) (l : location) :
  0 < m -> 0 < round_nearest_even m l.
Proof.
  intros H. unfold round_nearest_even.
  destruct l as [| []]; try lia. destruct (Z.even m); lia.
Qed.

(** Rounding a positive mantissa never gives a zero or a NaN. *)
Lemma binary_round_aux_sign (prec emax : Z) (sx : bool) (m e : Z) (l : location) :
  0 < prec -> emin prec emax <= e -> 0 < m ->
  (exists m' e', binary_round_aux prec emax sx m e l = S754_finite sx m' e')
  \/ binary_round_aux prec emax sx m e l = S754_infinity sx.
Proof.
  intros Hp He Hm. unfold binary_round_aux.
  destruct (shr_fexp_pos prec emax m e l Hp He Hm) as [H1 H2].
  destruct (shr_fexp prec emax m e l) as [mrs' e']. cbn [fst snd] in H1, H2.
  pose proof (round_nearest_even_pos _ (loc_of_shr_record mrs') H1) as H3.
  destruct (shr_fexp_pos prec emax _ e' loc_Exact Hp H2 H3) as [H4 _].
  destruct (shr_fexp prec emax _ e' loc_Exact) as [mrs'' e'']. cbn [fst] in H4.
  destruct (shr_m mrs'') as [| q | q]; try lia.
  destruct (e'' <=? emax - prec); [left; eauto | right; reflexivity].
Qed.

Lemma binary_round_sign (prec emax : Z) (sx : bool) (mx : positive) (ex : Z) :
  0 < prec -> emin prec emax <= ex ->
  (exists m' e', binary_round prec emax sx mx ex = S754_finite sx m' e')
  \/ binary_round prec emax sx mx ex = S754_infinity sx.
Proof.
  intros Hp He. unfold binary_round, shl_align.
  set (f := fexp prec emax (Z.pos (digits2_pos mx) + ex)).
  assert (Hf : emin prec emax <= f) by (unfold f, fexp; lia).
  destruct (f - ex) as [| d | d] eqn:Ed;
    apply binary_round_aux_sign; lia.
Qed.

Lemma float_of_int_sign (c : Z) :
  c <> 0 ->
  (exists m e, IEEE.float_of_int c = S754_finite (c <? 0) m e)
  \/ IEEE.float_of_int c = S754_infinity (c <? 0).
Proof.
  intros Hc. unfold IEEE.float_of_int, binary_normalize.
  destruct c as [| p | p]; [congruence | |];
    apply binary_round_sign; unfold emin, IEEE.fprec, IEEE.femax; lia.
Qed.

Lemma currentPercentage_of_zero_max (c : Z) :
  c <> 0 ->
  IEEE.fdiv (IEEE.float_of_int c) (IEEE.float_of_int 0) = S754_infinity (c <? 0)
  /\ currentPercentage_of c 0 = if c <? 0 then INT_MIN else INT_MAX.
Proof.
  intros Hc. unfold currentPercentage_of.
  apply Z.eqb_neq in Hc as Hc'. rewrite Hc'.
  assert (E : IEEE.fdiv (IEEE.float_of_int c) (IEEE.float_of_int 0) = S754_infinity (c <? 0)).
  { destruct (float_of_int_sign c Hc) as [(m & e & ->) | ->];
      cbn; rewrite xorb_false_r; reflexivity. }
  rewrite E. split; [reflexivity |].
  change (IEEE.float_of_int 100) with (S754_finite false 13107200 (-17)).
  cbn. rewrite xorb_false_r. reflexivity.
Qed.

(** ** A stepper that failed to attach *)

Ltac setup_events :=
  erewrite emitted_app
    by (exec; cbn [stallguard_wired max_speed]; exec; rewrite <- ?app_assoc; reflexivity).

(** C9.  When [stepperConnectToPin] returns NULL, [motorSetup] prints its
    error line and goes on to [loadPositions], which opens the storage and
    then calls [setCurrentPosition] on the NULL pointer.  With a NULL
    pointer every later operation follows it unchecked: [motorMoveTo] at
    [targetPos], [motorStop] at [stopMove], [motorRun] at [isRunning]; the
    only test [motorRun] makes before is the running flag. *)
Theorem null_stepper_is_dereferenced (cfg : Settings) (w0 w : World) (n : Z) :
  stepper w = None ->
  crashed (motorSetup cfg None w0) = Some (NullDeref "setCurrentPosition") /\
  In (ESerialPrintln "[E] Please use a different GPIO pin. The current pin is not compatible..")
     (emitted w0 (motorSetup cfg None w0)) /\
  last (emitted w0 (motorSetup cfg None w0)) = Some (EMemoryBegin "local") /\
  stepper (world_of (motorSetup cfg None w0)) = None /\
  crashed (motorMoveTo n w) = Some (NullDeref "targetPos") /\
  crashed (motorStop w) = Some (NullDeref "stopMove") /\
  (isMotorRunning w = true -> crashed (motorRun cfg w) = Some (NullDeref "isRunning")) /\
  (isMotorRunning w = false -> motorRun cfg w = Ok tt w) /\
  (forall op : Op, op <> OpRun -> crashed (perform cfg op w) <> None).
Proof.
  intros H.
  destruct w0 as [mx0 cp0 pp0 sx0 sn0 mr0 st0 mem0 tr0].
  destruct cfg as [ms ac mi wired].
  split; [destruct wired; exec; reflexivity |].
  split.
  { destruct wired; setup_events; cbn [app In];
      repeat (first [left; reflexivity | right]). }
  split; [destruct wired; setup_events; reflexivity |].
  split; [destruct wired; exec; reflexivity |].
  destruct w as [mx cp pp sx sn mr st mem tr]. cbn [stepper isMotorRunning] in *. subst st.
  split; [exec; reflexivity |].
  split; [exec; reflexivity |].
  split; [intros ->; exec; reflexivity |].
  split; [intros ->; exec; reflexivity |].
  intros op Hop. destruct op; try congruence; exec; discriminate.
Qed.


Lemma null_stepper_is_dereferenced_witness :
  crashed (motorSetup cfg0 None (boot ∅)) = Some (NullDeref "setCurrentPosition") /\
  crashed (motorMoveTo 25000 detached) = Some (NullDeref "targetPos") /\
  crashed (motorStop detached) = Some (NullDeref "stopMove") /\
  crashed (motorRun cfg0 detached) = Some (NullDeref "isRunning").
Proof.
  destruct (null_stepper_is_dereferenced cfg0 (boot ∅) detached 25000)
    as (H1 & _ & _ & _ & H2 & H3 & H4 & _).
  - reflexivity.
  - split; [exact H1 |]. split; [exact H2 |]. split; [exact H3 |].
    apply H4. reflexivity.
Defined.

(** ** The reported percentage *)

(** C10.  [motorCurrentPercentage] returns 0 when [currPos] is 0, whatever
    [maxPos] is.  For every other [currPos] it returns
    [(int) round((float) currPos / (float) maxPos * 100)] with no test on
    [maxPos]: when [maxPos] is 0 the division is carried out all the same,
    its quotient is an infinity of the sign of [currPos], and the value
    returned is the saturated conversion of that infinity. *)
Theorem motorCurrentPercentage_unguarded_division (w : World) :
  (currPos w = 0 -> motorCurrentPercentage w = Ok 0 w) /\
  (currPos w <> 0 ->
     motorCurrentPercentage w =
       Ok (IEEE.int_of_round
             (IEEE.fmul (IEEE.fdiv (IEEE.float_of_int (currPos w))
                                   (IEEE.float_of_int (maxPos w)))
                        (IEEE.float_of_int 100))) w) /\
  (currPos w <> 0 -> maxPos w = 0 ->
     IEEE.fdiv (IEEE.float_of_int (currPos w)) (IEEE.float_of_int (maxPos w)) =
       S754_infinity (currPos w <? 0) /\
     motorCurrentPercentage w = Ok (if currPos w <? 0 then INT_MIN else INT_MAX) w).
Proof.
  unfold motorCurrentPercentage, bind, get, ret.
  split; [intros E; rewrite E; reflexivity |].
  split.
  - intros N. unfold currentPercentage_of.
    apply Z.eqb_neq in N. rewrite N. reflexivity.
  - intros N E. rewrite E.
    destruct (currentPercentage_of_zero_max (currPos w) N) as [H1 H2].
    rewrite H1, H2. split; reflexivity.
Qed.

Lemma motorCurrentPercentage_unguarded_division_witness :
  motorCurrentPercentage (set_currPos 0 (set_maxPos 0 ready))
    = Ok 0 (set_currPos 0 (set_maxPos 0 ready)) /\
  motorCurrentPercentage (set_currPos 25000 (set_maxPos 0 ready))
    = Ok 2147483647 (set_currPos 25000 (set_maxPos 0 ready)) /\
  motorCurrentPercentage (set_currPos (-25000) (set_maxPos 0 ready))
    = Ok (-2147483648) (set_currPos (-25000) (set_maxPos 0 ready)).
Proof.
  split; [| split].
  - destruct (motorCurrentPercentage_unguarded_division
                (set_currPos 0 (set_maxPos 0 ready))) as (H & _ & _).
    apply H. reflexivity.
  - destruct (motorCurrentPercentage_unguarded_division
                (set_currPos 25000 (set_maxPos 0 ready))) as (_ & _ & H).
    destruct H as [_ H]; [cbn; lia | reflexivity | exact H].
  - destruct (motorCurrentPercentage_unguarded_division
                (set_currPos (-25000) (set_maxPos 0 ready))) as (_ & _ & H).
    destruct H as [_ H]; [cbn; lia | reflexivity | exact H].
Defined.
